(** * ZeroVM trap boundary: [src/syscalls/trap.c]

    A shallow embedding of the trap dispatcher and of its read, write and
    protection handlers, followed by the properties the specification
    states about them.

    Conventions of the embedding.
    - C integers are [Z]; every conversion to a fixed width is written
      out with [to_uint32], [to_int32] and [to_int64].
    - The handlers are state passing functions: they take the state they
      may touch and return the [int32_t] result with the state after the
      call.
    - Everything [trap.c] only calls (address translation, the user map,
      [Zmprotect], the validator, channel i/o, the daemon, the snapshot)
      is an interface: a type class whose fields are the functions the
      file uses.  The theorems hold for every implementation of it.
    - [ZLOG]/[ZLOGS] diagnostics only write to the log sink and are left
      out; [ZTrace] and [SyscallZTrace] are kept as events. *)

From Stdlib Require Import ZArith Lia.
From Stdlib Require String.
Import String.StringSyntax.
From stdpp Require Import base list.

Local Open Scope Z_scope.
Delimit Scope string_scope with string.

(** ** Fixed width integers *)

Definition to_unsigned (w x : Z) : Z := x mod 2 ^ w.

Definition to_signed (w x : Z) : Z :=
  (x + 2 ^ (w - 1)) mod 2 ^ w - 2 ^ (w - 1).

Definition to_uint32 : Z -> Z := to_unsigned 32.
Definition to_int32 : Z -> Z := to_signed 32.
Definition to_int64 : Z -> Z := to_signed 64.

(** [a + b] and [a - b] at type [int64_t]. *)
Definition add64 (a b : Z) : Z := to_int64 (a + b).
Definition sub64 (a b : Z) : Z := to_int64 (a - b).

Definition is_int32 (x : Z) : Prop := - 2 ^ 31 <= x < 2 ^ 31.
Definition is_int64 (x : Z) : Prop := - 2 ^ 63 <= x < 2 ^ 63.

(** [MIN(a, b)] of the C headers: [((a) < (b) ? (a) : (b))]. *)
Definition MIN (a b : Z) : Z := if a <? b then a else b.

(** ** Constants of the system headers (Linux) *)

Definition EPERM : Z := 1.
Definition EACCES : Z := 13.
Definition EFAULT : Z := 14.
Definition EINVAL : Z := 22.
Definition EDQUOT : Z := 122.

Definition PROT_NONE : Z := 0.
Definition PROT_READ : Z := 1.
Definition PROT_WRITE : Z := 2.
Definition PROT_EXEC : Z := 4.

(** ** Channel descriptors *)

(** The indices of [limits] and [counters]. *)
Inductive IOLimits : Type :=
  | GetsLimit | GetSizeLimit | PutsLimit | PutSizeLimit.

(** An [int64_t [LimitsNumber]] array, one cell per index. *)
Record Quotas : Type := MkQuotas {
  q_gets : Z;
  q_getsize : Z;
  q_puts : Z;
  q_putsize : Z
}.

Definition quota (q : Quotas) (i : IOLimits) : Z :=
  match i with
  | GetsLimit => q_gets q
  | GetSizeLimit => q_getsize q
  | PutsLimit => q_puts q
  | PutSizeLimit => q_putsize q
  end.

(** Modelled from the spec: the mode flags of a descriptor,
    {sequential|random-access} x {readable|writable}; [channel.h], which
    declares the field the [CH_*] macros read, is not among the sources. *)
Inductive Access : Type := Sequential | Random.

(** [struct ChannelDesc]: the fields [trap.c] reads.  [size], the two
    cursors and the cells of [limits] and [counters] are [int64_t]: the
    handler computes with them at that type.  The fields live in a
    module of their own so that [size] and [eof] keep their names next to
    the handlers' [size] argument. *)
Module Channel.
Record Desc : Type := Make {
  alias : String.string;
  get_access : Access;
  put_access : Access;
  size : Z;
  getpos : Z;
  putpos : Z;
  eof : bool;
  limits : Quotas;
  counters : Quotas
}.
End Channel.

Abbreviation ChannelDesc := Channel.Desc.

(** ** The memory side: [usermap.h], [userspace.h], the validator *)

Class AddressSpace : Type := {
  (** the user memory together with its map of protections *)
  Mem : Type;
  NACL_MAP_PAGESIZE : Z;
  (** the two translations of a user address, pure address arithmetic *)
  NaClUserToSys : Z -> Z;
  NaClUserToSysAddrNullOkay : Z -> Z;
  (** [CheckUserMap(addr, size, prot)]: 0, or -1 when the range is not in
      the user map with [prot] *)
  CheckUserMap : Mem -> Z -> Z -> Z -> Z;
  (** [Zmprotect(addr, size, prot)]: the return code, [errno] after the
      call, and the memory after the call *)
  Zmprotect : Mem -> Z -> Z -> Z -> Z * Z * Mem;
  (** [NaClSegmentValidates(mbase, size, vaddr)]: 0 when validation fails *)
  NaClSegmentValidates : Mem -> Z -> Z -> Z -> Z;
  (** the [uint64_t] stored at a system address *)
  load64 : Mem -> Z -> Z
}.

(** ** The protection handler *)

Section Protection.
Context `{AS : AddressSpace}.

(** [ZVMProtHandle(uintptr_t addr, uint32_t size, int prot)] *)
Definition ZVMProtHandle (m : Mem) (addr size prot : Z) : Z * Mem :=
  let sysaddr := NaClUserToSysAddrNullOkay addr in
  if negb (size mod NACL_MAP_PAGESIZE =? 0) then (- EINVAL, m)
  else if negb (sysaddr mod NACL_MAP_PAGESIZE =? 0) then (- EINVAL, m)
  else if CheckUserMap m sysaddr size 0 <? 0 then (- EACCES, m)
  else if (prot =? PROT_NONE) || (prot =? PROT_READ) || (prot =? PROT_WRITE)
          || (prot =? Z.lor PROT_READ PROT_WRITE) then
    let '(rc, errno, m') := Zmprotect m sysaddr size prot in
    if negb (rc =? 0) then (- errno, m') else (0, m')
  else if (prot =? PROT_EXEC) || (prot =? Z.lor PROT_READ PROT_EXEC) then
    if negb (CheckUserMap m sysaddr size PROT_READ =? 0) then (- EACCES, m)
    else if NaClSegmentValidates m sysaddr size addr =? 0 then (- EPERM, m)
    else
      let '(rc, errno, m') := Zmprotect m sysaddr size prot in
      if negb (rc =? 0) then (- errno, m') else (0, m')
  else (- EPERM, m).

End Protection.

(** ** The session: what a trap can observe and change *)

(** The report of [ReportSetupPtr()]: the fields [ZVMExitHandle] uses. *)
Record Report : Type := MkReport {
  user_code : Z;
  zvm_code : Z;
  zvm_state : option String.string
}.

(** What reaches the trace sink. *)
Inductive Event : Type :=
  | ZTrace (msg : String.string)
  | SyscallZTrace (id : Z) (args : list Z).

Section Sandbox.
Context `{AS : AddressSpace}.

(** The state behind [struct NaClApp *nap] and the globals of the
    process: the channel table [nap->manifest->channels], the user
    memory with its map, the report and the trace written so far. *)
Record NaClApp : Type := MkNaClApp {
  channels : list ChannelDesc;
  memory : Mem;
  report : Report;
  ztrace : list Event
}.

(** How a trap leaves the dispatcher: back to the guest with a return
    code, or not at all ([SessionDtor] ends the process). *)
Inductive Outcome : Type :=
  | Returned (retcode : Z) (nap : NaClApp)
  | SessionEnded (nap : NaClApp).

End Sandbox.

(** ** The session side: [channel.h], [daemon.h], [snapshot.h], [zvm.h] *)

Class Collaborators `{AS : AddressSpace} : Type := {
  CH_SEQ_READABLE : ChannelDesc -> bool;
  CH_SEQ_WRITEABLE : ChannelDesc -> bool;
  CH_RND_WRITEABLE : ChannelDesc -> bool;
  (** [ChannelRead(channel, buffer, size, offset)]: the result, the
      descriptor and the memory after the call *)
  ChannelRead : ChannelDesc -> Mem -> Z -> Z -> Z -> Z * ChannelDesc * Mem;
  (** [ChannelWrite(channel, buffer, size, offset)]: the result and the
      descriptor after the call; the buffer is only read *)
  ChannelWrite : ChannelDesc -> Mem -> Z -> Z -> Z -> Z * ChannelDesc;
  Daemon : NaClApp -> Z * NaClApp;
  SaveSession : NaClApp -> NaClApp;
  TrapFork : Z;
  TrapExit : Z;
  TrapRead : Z;
  TrapWrite : Z;
  TrapProt : Z;
  TrapTest : Z
}.

(** Modelled from the spec: the terminal state label of a session that
    ended without a host error, "ok"; the macro is not among the sources. *)
Definition OK_STATE : String.string := "ok"%string.

(** [-48u], the bound of the argument vector address. *)
Definition minus_48u : Z := to_uint32 (- 48).

(** ** The channel handlers and the dispatcher *)

Section Handlers.
Context `{IO : Collaborators}.

(** [CH_CH(nap->manifest, ch)] *)
Definition CH_CH (nap : NaClApp) (ch : Z) : option ChannelDesc :=
  channels nap !! Z.to_nat ch.

(** [ch < 0 || ch >= nap->manifest->channels->len] *)
Definition bad_channel (nap : NaClApp) (ch : Z) : bool :=
  (ch <? 0) || (ch >=? Z.of_nat (length (channels nap))).

(** A handle that passes "check the channel number". *)
Definition valid_channel (nap : NaClApp) (ch : Z) : Prop :=
  0 <= ch < Z.of_nat (length (channels nap)).

(** What [ChannelRead] leaves behind, stored back into the session. *)
Definition read_done (nap : NaClApp) (ch : Z)
    (r : Z * ChannelDesc * Mem) : Z * NaClApp :=
  let '(n, channel', m') := r in
  (n, MkNaClApp (<[Z.to_nat ch := channel']> (channels nap)) m'
        (report nap) (ztrace nap)).

(** What [ChannelWrite] leaves behind, stored back into the session. *)
Definition write_done (nap : NaClApp) (ch : Z)
    (r : Z * ChannelDesc) : Z * NaClApp :=
  let '(n, channel') := r in
  (n, MkNaClApp (<[Z.to_nat ch := channel']> (channels nap)) (memory nap)
        (report nap) (ztrace nap)).

(** [ZVMReadHandle] from "check for eof" to its end, with the [size]
    and [offset] the lines above have settled. *)
Definition read_checked (nap : NaClApp) (ch : Z) (channel : ChannelDesc)
    (sys_buffer size offset : Z) : Z * NaClApp :=
  if Channel.eof channel then (0, nap)
  else if quota (Channel.counters channel) GetsLimit
            >=? quota (Channel.limits channel) GetsLimit
  then (- EDQUOT, nap)
  else
    let tail := sub64 (quota (Channel.limits channel) GetSizeLimit)
                      (quota (Channel.counters channel) GetSizeLimit) in
    let size := if size >? tail then to_int32 tail else size in
    if size <? 1 then (- EDQUOT, nap)
    else read_done nap ch
           (ChannelRead channel (memory nap) sys_buffer size offset).

(** [ZVMReadHandle(nap, int ch, char *buffer, int32_t size,
    int64_t offset)] *)
Definition ZVMReadHandle (nap : NaClApp) (ch buffer size offset : Z)
    : Z * NaClApp :=
  if bad_channel nap ch then (- EINVAL, nap)
  else
    match CH_CH nap ch with
    | None => (- EINVAL, nap)
    | Some channel =>
      if size <? 0 then (- EFAULT, nap)
      else if offset <? 0 then (- EINVAL, nap)
      else if size =? 0 then (0, nap)
      else
        let sys_buffer := NaClUserToSysAddrNullOkay buffer in
        if CheckUserMap (memory nap) sys_buffer size PROT_WRITE =? -1
        then (- EINVAL, nap)
        else if CH_SEQ_READABLE channel
        then read_checked nap ch channel sys_buffer size
               (Channel.getpos channel)
        else
          let size :=
            to_int32 (MIN (sub64 (Channel.size channel) offset) size) in
          if size =? 0 then (0, nap)
          else read_checked nap ch channel sys_buffer size offset
    end.

(** [ZVMWriteHandle(nap, int ch, const char *buffer, int32_t size,
    int64_t offset)] *)
Definition ZVMWriteHandle (nap : NaClApp) (ch buffer size offset : Z)
    : Z * NaClApp :=
  if bad_channel nap ch then (- EINVAL, nap)
  else
    match CH_CH nap ch with
    | None => (- EINVAL, nap)
    | Some channel =>
      if size <? 0 then (- EFAULT, nap)
      else if offset <? 0 then (- EINVAL, nap)
      else if size =? 0 then (0, nap)
      else
        let sys_buffer := NaClUserToSysAddrNullOkay buffer in
        if CheckUserMap (memory nap) sys_buffer size PROT_READ =? -1
        then (- EINVAL, nap)
        else
          let offset :=
            if CH_SEQ_WRITEABLE channel then Channel.putpos channel
            else offset in
          if quota (Channel.counters channel) PutsLimit
               >=? quota (Channel.limits channel) PutsLimit
          then (- EDQUOT, nap)
          else
            let tail :=
              sub64 (quota (Channel.limits channel) PutSizeLimit)
                    (quota (Channel.counters channel) PutSizeLimit) in
            if CH_RND_WRITEABLE channel
               && (offset >=? quota (Channel.limits channel) PutSizeLimit)
            then (- EINVAL, nap)
            else if offset >=? add64 (Channel.size channel) tail
            then (- EINVAL, nap)
            else
              let size := if size >? tail then to_int32 tail else size in
              if size <? 1 then (- EDQUOT, nap)
              else write_done nap ch
                     (ChannelWrite channel (memory nap) sys_buffer size
                        offset)
    end.

(** [ZVMExitHandle(nap, code)]: the session as [SessionDtor] finds it.
    The function does not return. *)
Definition ZVMExitHandle (nap : NaClApp) (code : Z) : NaClApp :=
  let r := report nap in
  let state :=
    if zvm_code r =? 0 then Some OK_STATE else zvm_state r in
  MkNaClApp (channels nap) (memory nap)
    (MkReport code (zvm_code r) state) (ztrace nap).

(** [ZVMTestHandle(nap)] *)
Definition ZVMTestHandle (nap : NaClApp) : NaClApp := SaveSession nap.

Definition trace (e : Event) (nap : NaClApp) : NaClApp :=
  MkNaClApp (channels nap) (memory nap) (report nap) (ztrace nap ++ [e]).

Definition with_memory (nap : NaClApp) (m : Mem) : NaClApp :=
  MkNaClApp (channels nap) m (report nap) (ztrace nap).

(** [sargs[i]], read through the translated pointer [sargs]. *)
Definition word (nap : NaClApp) (sargs i : Z) : Z :=
  load64 (memory nap) (sargs + 8 * i).

(** The end of [TrapHandler]: "ztrace and return". *)
Definition trap_return (sargs : Z) (r : Z * NaClApp) : Outcome :=
  let '(retcode, nap) := r in
  Returned retcode
    (trace (SyscallZTrace (word nap sargs 0)
              [retcode; word nap sargs 2; word nap sargs 3;
               word nap sargs 4; word nap sargs 5]) nap).

(** [TrapHandler(nap, uint32_t args)] *)
Definition TrapHandler (nap : NaClApp) (args : Z) : Outcome :=
  if args >? minus_48u then Returned (- EFAULT) nap
  else
    let sargs := NaClUserToSys args in
    let nap := trace (ZTrace "untrusted code"%string) nap in
    let op := word nap sargs 0 in
    if op =? TrapFork then
      let '(retcode, nap) := Daemon nap in
      if negb (retcode =? 0) then trap_return sargs (retcode, nap)
      else
        let nap := trace (SyscallZTrace (word nap sargs 0) [0]) nap in
        let nap := trace (SyscallZTrace TrapExit [0]) nap in
        SessionEnded (ZVMExitHandle nap 0)
    else if op =? TrapExit then
      let nap := trace (SyscallZTrace op [word nap sargs 2]) nap in
      SessionEnded (ZVMExitHandle nap (word nap sargs 2))
    else if op =? TrapRead then
      trap_return sargs
        (ZVMReadHandle nap (to_int32 (word nap sargs 2)) (word nap sargs 3)
           (to_int32 (word nap sargs 4)) (to_int64 (word nap sargs 5)))
    else if op =? TrapWrite then
      trap_return sargs
        (ZVMWriteHandle nap (to_int32 (word nap sargs 2)) (word nap sargs 3)
           (to_int32 (word nap sargs 4)) (to_int64 (word nap sargs 5)))
    else if op =? TrapProt then
      let '(retcode, m) :=
        ZVMProtHandle (memory nap) (to_uint32 (word nap sargs 2))
          (to_uint32 (word nap sargs 3)) (to_int32 (word nap sargs 4)) in
      trap_return sargs (retcode, with_memory nap m)
    else if op =? TrapTest then
      SessionEnded (ZVMExitHandle (ZVMTestHandle nap) 0)
    else trap_return sargs (- EPERM, nap).

End Handlers.

(** ** A reference implementation of the two interfaces

    Small, executable stand-ins for the collaborators, used to run the
    handlers on concrete requests. *)

Module Reference.

(** Modelled from the spec: the address space of 4.1.  The user space
    starts at [mem_start]; [pages] holds, for each page of the user
    space, its protection bits, or [None] when the page is not in the
    user map; [words] holds the 64 bit words that are not zero. *)
Record memory_model : Type := MkMem {
  pages : list (option Z);
  words : list (Z * Z)
}.

Definition page_size : Z := 65536.
Definition mem_start : Z := 2 ^ 42.
Definition ENOMEM : Z := 12.

(** Modelled from the spec: [translate], pure address arithmetic. *)
Definition user_to_sys (uaddr : Z) : Z := uaddr + mem_start.

Definition page_has (m : memory_model) (prot i : Z) : bool :=
  match pages m !! Z.to_nat i with
  | Some (Some bits) => Z.land bits prot =? prot
  | _ => false
  end.

(** The page numbers of [addr .. addr + size - 1]. *)
Definition pages_of (addr size : Z) : list Z :=
  let first := (addr - mem_start) / page_size in
  let last := (addr + size - 1 - mem_start) / page_size in
  seqZ first (last - first + 1).

(** Modelled from the spec: [checkRange], which holds only if the whole
    range is mapped with at least the required permission. *)
Definition check_user_map (m : memory_model) (addr size prot : Z) : Z :=
  if (addr <? mem_start) || (size <? 0) then -1
  else if forallb (page_has m prot) (pages_of addr size) then 0 else -1.

Definition set_page (prot : Z) (ps : list (option Z)) (i : Z)
    : list (option Z) :=
  <[Z.to_nat i := Some prot]> ps.

(** Modelled from the spec: the protection change of 4.5; it fails as a
    whole, with [ENOMEM], on a range that is not mapped. *)
Definition zmprotect (m : memory_model) (addr size prot : Z)
    : Z * Z * memory_model :=
  if check_user_map m addr size 0 =? 0
  then (0, 0, MkMem (fold_left (set_page prot) (pages_of addr size)
                       (pages m)) (words m))
  else (-1, ENOMEM, m).

Definition load (m : memory_model) (addr : Z) : Z :=
  match find (fun w => fst w =? addr) (words m) with
  | Some w => snd w
  | None => 0
  end.

(** A stand-in validator: a range validates when every word stored in
    it is the word of eight [nop] bytes. *)
Definition nops : Z := 0x9090909090909090.

Definition validates (m : memory_model) (mbase size vaddr : Z) : Z :=
  if forallb (fun w => negb ((mbase <=? fst w) && (fst w <? mbase + size))
                       || (snd w =? nops)) (words m)
  then 1 else 0.

#[export] Instance address_space : AddressSpace := {|
  Mem := memory_model;
  NACL_MAP_PAGESIZE := page_size;
  NaClUserToSys := user_to_sys;
  NaClUserToSysAddrNullOkay := user_to_sys;
  CheckUserMap := check_user_map;
  Zmprotect := zmprotect;
  NaClSegmentValidates := validates;
  load64 := load
|}.

Definition sequential (a : Access) : bool :=
  match a with Sequential => true | Random => false end.

Definition random (a : Access) : bool := negb (sequential a).

Definition bump (q : Quotas) (i : IOLimits) (n : Z) : Quotas :=
  match i with
  | GetsLimit => MkQuotas (q_gets q + n) (q_getsize q) (q_puts q) (q_putsize q)
  | GetSizeLimit => MkQuotas (q_gets q) (q_getsize q + n) (q_puts q) (q_putsize q)
  | PutsLimit => MkQuotas (q_gets q) (q_getsize q) (q_puts q + n) (q_putsize q)
  | PutSizeLimit => MkQuotas (q_gets q) (q_getsize q) (q_puts q) (q_putsize q + n)
  end.

(** Modelled from the spec: the channel collaborator transfers the
    bytes it is asked for, counts the operation and the bytes, and
    advances the cursor (4.3, step 10). *)
Definition channel_read (c : ChannelDesc) (m : memory_model)
    (buffer size offset : Z) : Z * ChannelDesc * memory_model :=
  (size,
   Channel.Make (Channel.alias c) (Channel.get_access c)
     (Channel.put_access c) (Channel.size c) (offset + size)
     (Channel.putpos c) (Channel.eof c) (Channel.limits c)
     (bump (bump (Channel.counters c) GetsLimit 1) GetSizeLimit size),
   m).

Definition channel_write (c : ChannelDesc) (m : memory_model)
    (buffer size offset : Z) : Z * ChannelDesc :=
  (size,
   Channel.Make (Channel.alias c) (Channel.get_access c)
     (Channel.put_access c) (Z.max (Channel.size c) (offset + size))
     (Channel.getpos c) (offset + size) (Channel.eof c) (Channel.limits c)
     (bump (bump (Channel.counters c) PutsLimit 1) PutSizeLimit size)).

#[export] Instance collaborators : Collaborators := {|
  CH_SEQ_READABLE c := sequential (Channel.get_access c);
  CH_SEQ_WRITEABLE c := sequential (Channel.put_access c);
  CH_RND_WRITEABLE c := random (Channel.put_access c);
  ChannelRead := channel_read;
  ChannelWrite := channel_write;
  Daemon nap := (0, nap);
  SaveSession nap := nap;
  TrapFork := 17770435;
  TrapExit := 17770434;
  TrapRead := 17770431;
  TrapWrite := 17770432;
  TrapProt := 17770433;
  TrapTest := 17770436
|}.

(** *** Concrete sessions *)

(** Two mapped pages, readable and writable; the first holds a word
    that is not a [nop], and the argument vector of a trap with the
    operation code 7 sits at the user address 64. *)
Definition mem0 : memory_model :=
  MkMem [Some 3; Some 3] [(mem_start, 0xCC); (mem_start + 64, 7)].

Definition no_report : Report := MkReport 0 0 None.

Definition session (cs : list ChannelDesc) : NaClApp :=
  MkNaClApp cs mem0 no_report [].

(** A random access channel of size 100, nothing used of quotas of 10
    operations and 1000 bytes in each direction. *)
Definition fresh : ChannelDesc :=
  Channel.Make "C"%string Random Random 100 0 0 false
    (MkQuotas 10 1000 10 1000) (MkQuotas 0 0 0 0).

(** The same channel at end of file. *)
Definition at_eof : ChannelDesc :=
  Channel.Make "C"%string Random Random 100 0 0 true
    (MkQuotas 10 1000 10 1000) (MkQuotas 0 0 0 0).

(** The same channel with both operation counts used up. *)
Definition spent : ChannelDesc :=
  Channel.Make "C"%string Random Random 100 0 0 false
    (MkQuotas 10 1000 10 1000) (MkQuotas 10 0 10 0).

(** At end of file and with the read count used up. *)
Definition spent_at_eof : ChannelDesc :=
  Channel.Make "C"%string Random Random 100 0 0 true
    (MkQuotas 10 1000 10 1000) (MkQuotas 10 0 10 0).

(** A sequential channel that has written 600 of its 1000 bytes. *)
Definition pipe : ChannelDesc :=
  Channel.Make "P"%string Sequential Sequential 0 0 600 false
    (MkQuotas 10 1000 10 1000) (MkQuotas 0 0 3 600).

(** *** Requests in guest memory *)

(** The six words of an argument vector at the user address [uaddr]. *)
Definition vector (uaddr : Z) (ws : list Z) : list (Z * Z) :=
  imap (fun i w => (user_to_sys uaddr + 8 * Z.of_nat i, w)) ws.

(** The pages of [mem0] with five argument vectors: a read of 10 bytes
    at the offset 95 of channel 0 (at 128), an exit with the code 42 (at
    256), a fork (at 320), a write whose size word has bit 31 set (at
    384) and a test (at 448). *)
Definition mem1 : memory_model :=
  MkMem [Some 3; Some 3]
    (vector 128 [TrapRead; 0; 0; 4096; 10; 95]
     ++ vector 256 [TrapExit; 0; 42; 0; 0; 0]
     ++ vector 320 [TrapFork; 0; 0; 0; 0; 0]
     ++ vector 384 [TrapWrite; 0; 0; 4096; 2 ^ 31; 0]
     ++ vector 448 [TrapTest; 0; 0; 0; 0; 0]).

Definition session1 : NaClApp := MkNaClApp [fresh] mem1 no_report [].

(** A page without any access, and a page that can only be written. *)
Definition mem2 : memory_model := MkMem [Some 0; Some 2] [].

(** A sequential channel with its cursors at 40, half its quotas used. *)
Definition stream : ChannelDesc :=
  Channel.Make "S"%string Sequential Sequential 0 40 40 false
    (MkQuotas 10 1000 10 1000) (MkQuotas 5 40 5 40).

End Reference.

(** * Properties *)

(** ** Fixed width arithmetic *)

Lemma to_int64_exact (x : Z) : is_int64 x -> to_int64 x = x.
Proof.
  unfold is_int64, to_int64, to_signed. intros Hx.
  change (2 ^ (64 - 1)) with (2 ^ 63).
  change (2 ^ 64) with (2 * 2 ^ 63).
  rewrite Z.mod_small; lia.
Qed.

Lemma to_int32_exact (x : Z) : is_int32 x -> to_int32 x = x.
Proof.
  unfold is_int32, to_int32, to_signed. intros Hx.
  change (2 ^ (32 - 1)) with (2 ^ 31).
  change (2 ^ 32) with (2 * 2 ^ 31).
  rewrite Z.mod_small; lia.
Qed.

Lemma add64_exact (a b : Z) : is_int64 (a + b) -> add64 a b = a + b.
Proof. apply to_int64_exact. Qed.

Lemma sub64_exact (a b : Z) : is_int64 (a - b) -> sub64 a b = a - b.
Proof. apply to_int64_exact. Qed.

Lemma minus_48u_value : minus_48u = 2 ^ 32 - 48.
Proof. reflexivity. Qed.

(** ** The protection handler *)

Section ProtectionProperties.
Context `{AS : AddressSpace}.

(** C1.  A request for [PROT_EXEC] or [PROT_READ | PROT_EXEC] over a
    range that is page aligned, in the user map and readable, and that
    the validator rejects, returns [-EPERM] and leaves the memory, and
    so the protection of the range, exactly as it was.  Read from right
    to left this is the "only if": whenever the call changes anything,
    the validator has accepted the range. *)
Theorem ZVMProtHandle_rejected_code (m : Mem) (addr size prot : Z) :
  prot = PROT_EXEC \/ prot = Z.lor PROT_READ PROT_EXEC ->
  size mod NACL_MAP_PAGESIZE = 0 ->
  NaClUserToSysAddrNullOkay addr mod NACL_MAP_PAGESIZE = 0 ->
  0 <= CheckUserMap m (NaClUserToSysAddrNullOkay addr) size 0 ->
  CheckUserMap m (NaClUserToSysAddrNullOkay addr) size PROT_READ = 0 ->
  NaClSegmentValidates m (NaClUserToSysAddrNullOkay addr) size addr = 0 ->
  ZVMProtHandle m addr size prot = (- EPERM, m).
Proof.
  intros Hprot Hsize Haddr Hmap Hread Hval. unfold ZVMProtHandle.
  rewrite Hsize, Haddr, Hread, Hval. simpl.
  destruct (Z.ltb_spec (CheckUserMap m (NaClUserToSysAddrNullOkay addr) size 0) 0);
    [lia |].
  destruct Hprot as [-> | ->]; reflexivity.
Qed.

(** X21.  The other half of the executable branch: an accepted range
    gets what [Zmprotect] does. *)
Lemma ZVMProtHandle_accepted_code (m : Mem) (addr size prot : Z) :
  prot = PROT_EXEC \/ prot = Z.lor PROT_READ PROT_EXEC ->
  size mod NACL_MAP_PAGESIZE = 0 ->
  NaClUserToSysAddrNullOkay addr mod NACL_MAP_PAGESIZE = 0 ->
  0 <= CheckUserMap m (NaClUserToSysAddrNullOkay addr) size 0 ->
  CheckUserMap m (NaClUserToSysAddrNullOkay addr) size PROT_READ = 0 ->
  NaClSegmentValidates m (NaClUserToSysAddrNullOkay addr) size addr <> 0 ->
  ZVMProtHandle m addr size prot =
    let '(rc, errno, m') :=
      Zmprotect m (NaClUserToSysAddrNullOkay addr) size prot in
    ((if rc =? 0 then 0 else - errno), m').
Proof.
  intros Hprot Hsize Haddr Hmap Hread Hval. unfold ZVMProtHandle.
  rewrite Hsize, Haddr, Hread. simpl.
  destruct (Z.ltb_spec (CheckUserMap m (NaClUserToSysAddrNullOkay addr) size 0) 0);
    [lia |].
  destruct (Z.eqb_spec
    (NaClSegmentValidates m (NaClUserToSysAddrNullOkay addr) size addr) 0);
    [contradiction |].
  destruct Hprot as [-> | ->]; simpl;
    destruct (Zmprotect _ _ _ _) as [[rc errno] m'];
    destruct (rc =? 0); reflexivity.
Qed.

(** X22.  An executable request never changes the memory behind the
    back of the validator. *)
Lemma ZVMProtHandle_exec_needs_validation (m : Mem) (addr size prot : Z) :
  prot = PROT_EXEC \/ prot = Z.lor PROT_READ PROT_EXEC ->
  snd (ZVMProtHandle m addr size prot) <> m ->
  NaClSegmentValidates m (NaClUserToSysAddrNullOkay addr) size addr <> 0.
Proof.
  intros Hprot Hchg Hval. apply Hchg. unfold ZVMProtHandle.
  rewrite Hval.
  destruct Hprot as [-> | ->]; simpl;
    repeat match goal with
    | |- context [if ?b then _ else _] => destruct b; simpl; try reflexivity
    end.
Qed.

(** C7.  When the size or the address (the system address the handler
    tests) is not a multiple of [NACL_MAP_PAGESIZE], the handler
    returns [-EINVAL] whatever the protection asked for, and the memory
    is as before: no mapping check and no protection change has taken
    place. *)
Theorem ZVMProtHandle_unaligned (m : Mem) (addr size prot : Z) :
  size mod NACL_MAP_PAGESIZE <> 0
  \/ NaClUserToSysAddrNullOkay addr mod NACL_MAP_PAGESIZE <> 0 ->
  ZVMProtHandle m addr size prot = (- EINVAL, m).
Proof.
  intros H. unfold ZVMProtHandle.
  destruct (Z.eqb_spec (size mod NACL_MAP_PAGESIZE) 0) as [Hs | Hs];
    simpl; [| reflexivity].
  destruct (Z.eqb_spec
    (NaClUserToSysAddrNullOkay addr mod NACL_MAP_PAGESIZE) 0) as [Ha | Ha];
    simpl; [| reflexivity].
  destruct H; contradiction.
Qed.

(** With a translation that adds a page aligned base, as the reference
    one does, the test on the system address is a test on the guest
    address. *)
Lemma ZVMProtHandle_unaligned_guest (base : Z) (m : Mem)
    (addr size prot : Z) :
  (forall a, NaClUserToSysAddrNullOkay a = a + base) ->
  base mod NACL_MAP_PAGESIZE = 0 ->
  size mod NACL_MAP_PAGESIZE <> 0 \/ addr mod NACL_MAP_PAGESIZE <> 0 ->
  ZVMProtHandle m addr size prot = (- EINVAL, m).
Proof.
  intros Htr Hbase H. unfold ZVMProtHandle. rewrite Htr.
  assert (Hmod : (addr + base) mod NACL_MAP_PAGESIZE
                 = addr mod NACL_MAP_PAGESIZE).
  { rewrite Zplus_mod, Hbase, Z.add_0_r. apply Zmod_mod. }
  rewrite Hmod.
  destruct (Z.eqb_spec (size mod NACL_MAP_PAGESIZE) 0) as [Hs | Hs];
    simpl; [| reflexivity].
  destruct (Z.eqb_spec (addr mod NACL_MAP_PAGESIZE) 0) as [Ha | Ha];
    simpl; [| reflexivity].
  destruct H; contradiction.
Qed.

End ProtectionProperties.

(** ** The channel handlers *)

Section ChannelProperties.
Context `{IO : Collaborators}.

Lemma bad_channel_valid (nap : NaClApp) (ch : Z) :
  valid_channel nap ch -> bad_channel nap ch = false.
Proof.
  unfold valid_channel, bad_channel. intros H.
  rewrite Z.geb_leb.
  destruct (Z.ltb_spec ch 0); [lia |].
  destruct (Z.leb_spec (Z.of_nat (length (channels nap))) ch); [lia |].
  reflexivity.
Qed.

(** After the check of the channel number the table lookup cannot
    fail: the [None] branch of the handlers is dead. *)
Lemma CH_CH_valid (nap : NaClApp) (ch : Z) :
  valid_channel nap ch -> is_Some (CH_CH nap ch).
Proof.
  unfold valid_channel, CH_CH. intros H.
  apply lookup_lt_is_Some. lia.
Qed.

(** A read that passes the checks of its arguments is at
    "ignore user offset for sequential access read". *)
Lemma ZVMReadHandle_validated (nap : NaClApp) (ch buffer size offset : Z)
    (channel : ChannelDesc) :
  valid_channel nap ch ->
  CH_CH nap ch = Some channel ->
  0 < size ->
  0 <= offset ->
  CheckUserMap (memory nap) (NaClUserToSysAddrNullOkay buffer) size
    PROT_WRITE <> -1 ->
  ZVMReadHandle nap ch buffer size offset =
    if CH_SEQ_READABLE channel
    then read_checked nap ch channel (NaClUserToSysAddrNullOkay buffer)
           size (Channel.getpos channel)
    else if to_int32 (MIN (sub64 (Channel.size channel) offset) size) =? 0
    then (0, nap)
    else read_checked nap ch channel (NaClUserToSysAddrNullOkay buffer)
           (to_int32 (MIN (sub64 (Channel.size channel) offset) size))
           offset.
Proof.
  intros Hch Hc Hsize Hoff Hbuf. unfold ZVMReadHandle.
  rewrite (bad_channel_valid _ _ Hch), Hc.
  destruct (Z.ltb_spec size 0); [lia |].
  destruct (Z.ltb_spec offset 0); [lia |].
  destruct (Z.eqb_spec size 0); [lia |].
  destruct (Z.eqb_spec
    (CheckUserMap (memory nap) (NaClUserToSysAddrNullOkay buffer) size
       PROT_WRITE) (-1)); [contradiction |].
  reflexivity.
Qed.

(** A write that passes the checks of its arguments and of the count of
    writes is at "prevent writing beyond the limit", with the offset in
    effect: the cursor of a sequential channel, else the offset of the
    caller. *)
Lemma ZVMWriteHandle_validated (nap : NaClApp) (ch buffer size offset : Z)
    (channel : ChannelDesc) :
  valid_channel nap ch ->
  CH_CH nap ch = Some channel ->
  0 < size ->
  0 <= offset ->
  CheckUserMap (memory nap) (NaClUserToSysAddrNullOkay buffer) size
    PROT_READ <> -1 ->
  quota (Channel.counters channel) PutsLimit
    < quota (Channel.limits channel) PutsLimit ->
  forall eff tail,
  eff = (if CH_SEQ_WRITEABLE channel then Channel.putpos channel
         else offset) ->
  tail = sub64 (quota (Channel.limits channel) PutSizeLimit)
               (quota (Channel.counters channel) PutSizeLimit) ->
  ZVMWriteHandle nap ch buffer size offset =
    if CH_RND_WRITEABLE channel
       && (quota (Channel.limits channel) PutSizeLimit <=? eff)
    then (- EINVAL, nap)
    else if add64 (Channel.size channel) tail <=? eff
    then (- EINVAL, nap)
    else if (if tail <? size then to_int32 tail else size) <? 1
    then (- EDQUOT, nap)
    else write_done nap ch
           (ChannelWrite channel (memory nap)
              (NaClUserToSysAddrNullOkay buffer)
              (if tail <? size then to_int32 tail else size) eff).
Proof.
  intros Hch Hc Hsize Hoff Hbuf Hcount eff tail -> ->.
  unfold ZVMWriteHandle.
  rewrite (bad_channel_valid _ _ Hch), Hc.
  destruct (Z.ltb_spec size 0); [lia |].
  destruct (Z.ltb_spec offset 0); [lia |].
  destruct (Z.eqb_spec size 0); [lia |].
  destruct (Z.eqb_spec
    (CheckUserMap (memory nap) (NaClUserToSysAddrNullOkay buffer) size
       PROT_READ) (-1)); [contradiction |].
  rewrite (Z.geb_leb (quota (Channel.counters channel) PutsLimit)).
  destruct (Z.leb_spec (quota (Channel.limits channel) PutsLimit)
              (quota (Channel.counters channel) PutsLimit)); [lia |].
  cbv zeta. rewrite !Z.geb_leb, !Z.gtb_ltb. reflexivity.
Qed.

(** *** Reads of a random access channel against its size *)

(** X11.  A read at exactly the declared size returns 0. *)
Lemma ZVMReadHandle_at_end (nap : NaClApp) (ch buffer size offset : Z)
    (channel : ChannelDesc) :
  valid_channel nap ch ->
  CH_CH nap ch = Some channel ->
  0 < size ->
  0 <= offset ->
  CheckUserMap (memory nap) (NaClUserToSysAddrNullOkay buffer) size
    PROT_WRITE <> -1 ->
  CH_SEQ_READABLE channel = false ->
  offset = Channel.size channel ->
  ZVMReadHandle nap ch buffer size offset = (0, nap).
Proof.
  intros Hch Hc Hsize Hoff Hbuf Hrnd ->.
  rewrite (ZVMReadHandle_validated _ _ _ _ _ _ Hch Hc Hsize Hoff Hbuf), Hrnd.
  unfold sub64. rewrite Z.sub_diag. change (to_int64 0) with 0.
  unfold MIN. destruct (Z.ltb_spec 0 size); [| lia]. reflexivity.
Qed.

(** X12.  A read below the declared size goes on with
    [min(size, channel->size - offset)]. *)
Lemma ZVMReadHandle_clamped (nap : NaClApp) (ch buffer size offset : Z)
    (channel : ChannelDesc) :
  valid_channel nap ch ->
  CH_CH nap ch = Some channel ->
  0 < size -> is_int32 size ->
  0 <= offset ->
  CheckUserMap (memory nap) (NaClUserToSysAddrNullOkay buffer) size
    PROT_WRITE <> -1 ->
  CH_SEQ_READABLE channel = false ->
  is_int64 (Channel.size channel) ->
  offset < Channel.size channel ->
  ZVMReadHandle nap ch buffer size offset =
    read_checked nap ch channel (NaClUserToSysAddrNullOkay buffer)
      (Z.min size (Channel.size channel - offset)) offset.
Proof.
  intros Hch Hc Hsize Hsz Hoff Hbuf Hrnd HS Hlt.
  rewrite (ZVMReadHandle_validated _ _ _ _ _ _ Hch Hc Hsize Hoff Hbuf), Hrnd.
  unfold is_int32, is_int64 in *.
  rewrite sub64_exact by (unfold is_int64; lia).
  assert (Hmin : MIN (Channel.size channel - offset) size
                 = Z.min size (Channel.size channel - offset)).
  { unfold MIN. destruct (Z.ltb_spec (Channel.size channel - offset) size); lia. }
  rewrite Hmin, to_int32_exact by (unfold is_int32; lia).
  destruct (Z.eqb_spec (Z.min size (Channel.size channel - offset)) 0);
    [lia | reflexivity].
Qed.

(** A read beyond the declared size, by less than [2^31], of a channel
    that is not at end of file and has quota left: the difference
    [channel->size - offset] is negative, passes [size == 0], and ends
    in the test [size < 1] of the byte quota. *)
Lemma ZVMReadHandle_beyond_end (nap : NaClApp) (ch buffer size offset : Z)
    (channel : ChannelDesc) :
  valid_channel nap ch ->
  CH_CH nap ch = Some channel ->
  0 < size ->
  0 <= offset ->
  CheckUserMap (memory nap) (NaClUserToSysAddrNullOkay buffer) size
    PROT_WRITE <> -1 ->
  CH_SEQ_READABLE channel = false ->
  Channel.size channel < offset <= Channel.size channel + 2 ^ 31 ->
  Channel.eof channel = false ->
  quota (Channel.counters channel) GetsLimit
    < quota (Channel.limits channel) GetsLimit ->
  0 <= sub64 (quota (Channel.limits channel) GetSizeLimit)
             (quota (Channel.counters channel) GetSizeLimit) ->
  ZVMReadHandle nap ch buffer size offset = (- EDQUOT, nap).
Proof.
  intros Hch Hc Hsize Hoff Hbuf Hrnd Hpast Heof Hcount Htail.
  rewrite (ZVMReadHandle_validated _ _ _ _ _ _ Hch Hc Hsize Hoff Hbuf), Hrnd.
  rewrite sub64_exact by (unfold is_int64; lia).
  assert (Hmin : MIN (Channel.size channel - offset) size
                 = Channel.size channel - offset).
  { unfold MIN. destruct (Z.ltb_spec (Channel.size channel - offset) size); lia. }
  rewrite Hmin, to_int32_exact by (unfold is_int32; lia).
  destruct (Z.eqb_spec (Channel.size channel - offset) 0); [lia |].
  unfold read_checked. rewrite Heof.
  rewrite Z.geb_leb.
  destruct (Z.leb_spec (quota (Channel.limits channel) GetsLimit)
              (quota (Channel.counters channel) GetsLimit)); [lia |].
  cbv zeta. rewrite Z.gtb_ltb.
  match goal with
  | |- context [?t <? Channel.size channel - offset] =>
      destruct (Z.ltb_spec t (Channel.size channel - offset)); [lia |]
  end.
  destruct (Z.ltb_spec (Channel.size channel - offset) 1); [| lia].
  reflexivity.
Qed.

(** *** End of file and the count quotas *)

(** C3, as amended.  Once [eof] is set, every read of the channel that
    passes the checks of its arguments (a valid handle, a size and an
    offset that are not negative, and a buffer that is writable when
    the size is not 0) returns 0 and leaves the session as it was,
    whatever the counters and the limits hold. *)
Theorem ZVMReadHandle_eof (nap : NaClApp) (ch buffer size offset : Z)
    (channel : ChannelDesc) :
  valid_channel nap ch ->
  CH_CH nap ch = Some channel ->
  Channel.eof channel = true ->
  0 <= size ->
  0 <= offset ->
  size = 0
  \/ CheckUserMap (memory nap) (NaClUserToSysAddrNullOkay buffer) size
       PROT_WRITE <> -1 ->
  ZVMReadHandle nap ch buffer size offset = (0, nap).
Proof.
  intros Hch Hc Heof Hsize Hoff Hbuf.
  destruct (Z.eq_dec size 0) as [-> | Hnz].
  - unfold ZVMReadHandle.
    rewrite (bad_channel_valid _ _ Hch), Hc.
    destruct (Z.ltb_spec offset 0); [lia | reflexivity].
  - destruct Hbuf as [? | Hbuf]; [contradiction |].
    rewrite (ZVMReadHandle_validated _ _ _ _ _ _ Hch Hc) by (lia || exact Hbuf).
    unfold read_checked. rewrite Heof.
    destruct (CH_SEQ_READABLE channel); [reflexivity |].
    destruct (_ =? 0); reflexivity.
Qed.

(** C4, as amended.  With the count of reads used up, a read of more
    than 0 bytes that passes the checks of its arguments returns
    [-EDQUOT] and leaves the session as it was, provided the channel is
    not at end of file and, when it is not sequential, the size clipped
    to the declared size is not 0.  With the count of writes used up, a
    write of more than 0 bytes that passes the checks of its arguments
    returns [-EDQUOT] and leaves the session as it was. *)
Theorem count_quota_exhausted (nap : NaClApp) (ch buffer size offset : Z)
    (channel : ChannelDesc) :
  valid_channel nap ch ->
  CH_CH nap ch = Some channel ->
  0 < size ->
  0 <= offset ->
  (CheckUserMap (memory nap) (NaClUserToSysAddrNullOkay buffer) size
     PROT_WRITE <> -1 ->
   quota (Channel.limits channel) GetsLimit
     <= quota (Channel.counters channel) GetsLimit ->
   Channel.eof channel = false ->
   CH_SEQ_READABLE channel = true
   \/ to_int32 (MIN (sub64 (Channel.size channel) offset) size) <> 0 ->
   ZVMReadHandle nap ch buffer size offset = (- EDQUOT, nap))
  /\ (CheckUserMap (memory nap) (NaClUserToSysAddrNullOkay buffer) size
       PROT_READ <> -1 ->
     quota (Channel.limits channel) PutsLimit
       <= quota (Channel.counters channel) PutsLimit ->
     ZVMWriteHandle nap ch buffer size offset = (- EDQUOT, nap)).
Proof.
  intros Hch Hc Hsize Hoff. split.
  - intros Hbuf Hcount Heof Hclip.
    rewrite (ZVMReadHandle_validated _ _ _ _ _ _ Hch Hc Hsize Hoff Hbuf).
    assert (Hchecked : forall b s o,
               read_checked nap ch channel b s o = (- EDQUOT, nap)).
    { intros b s o. unfold read_checked. rewrite Heof, Z.geb_leb.
      destruct (Z.leb_spec (quota (Channel.limits channel) GetsLimit)
                  (quota (Channel.counters channel) GetsLimit));
        [reflexivity | lia]. }
    destruct (CH_SEQ_READABLE channel); [apply Hchecked |].
    destruct Hclip as [? | Hclip]; [discriminate |].
    destruct (Z.eqb_spec
      (to_int32 (MIN (sub64 (Channel.size channel) offset) size)) 0);
      [contradiction | apply Hchecked].
  - intros Hbuf Hcount. unfold ZVMWriteHandle.
    rewrite (bad_channel_valid _ _ Hch), Hc.
    destruct (Z.ltb_spec size 0); [lia |].
    destruct (Z.ltb_spec offset 0); [lia |].
    destruct (Z.eqb_spec size 0); [lia |].
    destruct (Z.eqb_spec
      (CheckUserMap (memory nap) (NaClUserToSysAddrNullOkay buffer) size
         PROT_READ) (-1)); [contradiction |].
    rewrite Z.geb_leb.
    destruct (Z.leb_spec (quota (Channel.limits channel) PutsLimit)
                (quota (Channel.counters channel) PutsLimit));
      [reflexivity | lia].
Qed.

(** *** The bounds of a write *)

(** C5.  In the write handler, past the checks of the arguments and of
    the count of writes, with [tail = limits[PutSizeLimit] -
    counters[PutSizeLimit]]: an offset in effect at or beyond
    [limits[PutSizeLimit]] on a random access writable channel, and an
    offset in effect at or beyond [channel->size + tail], are each
    rejected with [-EINVAL], the session untouched: nothing has been
    transferred. *)
Theorem ZVMWriteHandle_offset_bounds (nap : NaClApp)
    (ch buffer size offset : Z) (channel : ChannelDesc) :
  valid_channel nap ch ->
  CH_CH nap ch = Some channel ->
  0 < size ->
  0 <= offset ->
  CheckUserMap (memory nap) (NaClUserToSysAddrNullOkay buffer) size
    PROT_READ <> -1 ->
  quota (Channel.counters channel) PutsLimit
    < quota (Channel.limits channel) PutsLimit ->
  (CH_RND_WRITEABLE channel = true
   /\ quota (Channel.limits channel) PutSizeLimit
      <= (if CH_SEQ_WRITEABLE channel then Channel.putpos channel
          else offset))
  \/ add64 (Channel.size channel)
       (sub64 (quota (Channel.limits channel) PutSizeLimit)
              (quota (Channel.counters channel) PutSizeLimit))
     <= (if CH_SEQ_WRITEABLE channel then Channel.putpos channel
         else offset) ->
  ZVMWriteHandle nap ch buffer size offset = (- EINVAL, nap).
Proof.
  intros Hch Hc Hsize Hoff Hbuf Hcount Hbound.
  rewrite (ZVMWriteHandle_validated _ _ _ _ _ _ Hch Hc Hsize Hoff Hbuf
             Hcount _ _ eq_refl eq_refl).
  destruct Hbound as [[-> Hlimit] | Hextent].
  - cbn [andb]. apply Z.leb_le in Hlimit. rewrite Hlimit. reflexivity.
  - apply Z.leb_le in Hextent. rewrite Hextent.
    destruct (_ && _); reflexivity.
Qed.

(** C10.  The bound [channel->size + tail] is not tied to random
    access: on a sequential writable channel the handler tests the
    cursor [putpos], which has replaced the offset of the caller, and a
    write whose cursor has reached the size plus what is left of the
    byte quota returns [-EINVAL], whatever offset the caller passed. *)
Theorem ZVMWriteHandle_sequential_extent (nap : NaClApp)
    (ch buffer size offset : Z) (channel : ChannelDesc) :
  valid_channel nap ch ->
  CH_CH nap ch = Some channel ->
  0 < size ->
  0 <= offset ->
  CheckUserMap (memory nap) (NaClUserToSysAddrNullOkay buffer) size
    PROT_READ <> -1 ->
  quota (Channel.counters channel) PutsLimit
    < quota (Channel.limits channel) PutsLimit ->
  CH_SEQ_WRITEABLE channel = true ->
  add64 (Channel.size channel)
    (sub64 (quota (Channel.limits channel) PutSizeLimit)
           (quota (Channel.counters channel) PutSizeLimit))
    <= Channel.putpos channel ->
  ZVMWriteHandle nap ch buffer size offset = (- EINVAL, nap).
Proof.
  intros Hch Hc Hsize Hoff Hbuf Hcount Hseq Hext.
  rewrite (ZVMWriteHandle_validated _ _ _ _ _ _ Hch Hc Hsize Hoff Hbuf
             Hcount _ _ eq_refl eq_refl).
  rewrite Hseq. apply Z.leb_le in Hext. rewrite Hext.
  destruct (_ && _); reflexivity.
Qed.

(** *** Requests for no bytes *)

(** C9.  On a valid handle and with an offset that is not negative, a
    read and a write of size 0 return 0 and leave the session, quotas
    included, as it was.  The buffer plays no part: the statement holds
    for every pointer and for every [CheckUserMap], also one that
    refuses every range. *)
Theorem zero_size_request (nap : NaClApp) (ch buffer offset : Z) :
  valid_channel nap ch ->
  0 <= offset ->
  ZVMReadHandle nap ch buffer 0 offset = (0, nap)
  /\ ZVMWriteHandle nap ch buffer 0 offset = (0, nap).
Proof.
  intros Hch Hoff.
  destruct (CH_CH_valid _ _ Hch) as [channel Hc].
  unfold ZVMReadHandle, ZVMWriteHandle.
  rewrite (bad_channel_valid _ _ Hch), Hc.
  destruct (Z.ltb_spec offset 0); [lia |]. split; reflexivity.
Qed.

End ChannelProperties.

(** ** The dispatcher *)

Section DispatcherProperties.
Context `{IO : Collaborators}.

(** C6.  An argument vector address above [2^32 - 48], so that the 48
    bytes of the vector do not fit below [2^32], makes [TrapHandler]
    return [-EFAULT] at once: the session is as it was, with nothing
    traced, no pointer translated and no handler run. *)
Theorem TrapHandler_args_overflow (nap : NaClApp) (args : Z) :
  2 ^ 32 - 48 < args ->
  TrapHandler nap args = Returned (- EFAULT) nap.
Proof.
  intros Hargs. unfold TrapHandler.
  rewrite Z.gtb_ltb, minus_48u_value.
  destruct (Z.ltb_spec (2 ^ 32 - 48) args); [reflexivity | lia].
Qed.

(** C8.  A trap whose argument vector passes the address test and whose
    word 0 is none of the six operation codes returns [-EPERM]; the
    channel table, the memory with its protection and the report are as
    before the trap, and the trace has grown by the two events of the
    dispatcher, nothing else. *)
Theorem TrapHandler_unknown_code (nap : NaClApp) (args : Z) :
  args <= 2 ^ 32 - 48 ->
  ~ In (word nap (NaClUserToSys args) 0)
       [TrapFork; TrapExit; TrapRead; TrapWrite; TrapProt; TrapTest] ->
  exists nap',
    TrapHandler nap args = Returned (- EPERM) nap'
    /\ channels nap' = channels nap
    /\ memory nap' = memory nap
    /\ report nap' = report nap
    /\ ztrace nap' =
       ztrace nap ++
       [ZTrace "untrusted code"%string;
        SyscallZTrace (word nap (NaClUserToSys args) 0)
          [- EPERM; word nap (NaClUserToSys args) 2;
           word nap (NaClUserToSys args) 3; word nap (NaClUserToSys args) 4;
           word nap (NaClUserToSys args) 5]].
Proof.
  intros Hargs Hop. unfold TrapHandler.
  rewrite Z.gtb_ltb, minus_48u_value.
  destruct (Z.ltb_spec (2 ^ 32 - 48) args); [lia |].
  cbv zeta.
  change (word (trace (ZTrace "untrusted code"%string) nap) (NaClUserToSys args) 0)
    with (word nap (NaClUserToSys args) 0).
  set (op := word nap (NaClUserToSys args) 0) in *.
  assert (Hne : forall code,
             In code [TrapFork; TrapExit; TrapRead; TrapWrite; TrapProt;
                      TrapTest] -> (op =? code) = false).
  { intros code Hin. apply Z.eqb_neq. intros E. apply Hop.
    rewrite E. exact Hin. }
  rewrite !Hne by (simpl; tauto).
  eexists. split; [reflexivity |].
  split; [reflexivity |]. split; [reflexivity |]. split; [reflexivity |].
  cbn [ztrace trace]. rewrite <- app_assoc. reflexivity.
Qed.

End DispatcherProperties.

(** ** Runs on the reference implementation *)

Section Runs.
Import Reference.

(** C2 at work.  The channel [fresh] has the size 100.  A read of 10
    bytes at the offset 101 returns [-EDQUOT], not 0, although no quota
    is used up; and at the offset [2^32 + 95] the difference
    [100 - offset] is [5 - 2^32], which the conversion to [int32_t]
    turns into 5: the handler passes a read of 5 bytes at that offset,
    beyond the end of the channel, on to [ChannelRead]. *)
Theorem ZVMReadHandle_past_the_end :
  ZVMReadHandle (session [fresh]) 0 4096 10 101
    = (- EDQUOT, session [fresh])
  /\ ZVMReadHandle (session [fresh]) 0 4096 10 (2 ^ 32 + 95)
     = read_done (session [fresh]) 0
         (ChannelRead fresh mem0 (user_to_sys 4096) 5 (2 ^ 32 + 95))
  /\ fst (ZVMReadHandle (session [fresh]) 0 4096 10 (2 ^ 32 + 95)) = 5.
Proof. split; [reflexivity | split; reflexivity]. Qed.

(** At the declared size itself the read returns 0, and below it the
    size is clipped: 10 bytes asked at the offset 95 are 5 bytes read. *)
Example ZVMReadHandle_at_and_below_the_end :
  ZVMReadHandle (session [fresh]) 0 4096 10 100 = (0, session [fresh])
  /\ fst (ZVMReadHandle (session [fresh]) 0 4096 10 95) = 5.
Proof. split; reflexivity. Qed.

(** The claim C3 as it is written fails: the channel is at end of file
    and a read with a negative size is answered with [-EFAULT]. *)
Lemma ZVMReadHandle_eof_negative_size :
  Channel.eof at_eof = true
  /\ CH_CH (session [at_eof]) 0 = Some at_eof
  /\ ZVMReadHandle (session [at_eof]) 0 4096 (-1) 0
     = (- EFAULT, session [at_eof])
  /\ fst (ZVMReadHandle (session [at_eof]) 0 4096 (-1) 0) <> 0.
Proof.
  split; [reflexivity |]. split; [reflexivity |]. split; [reflexivity |].
  vm_compute. congruence.
Qed.

(** The claim C4 as it is written fails: the count of reads is used up,
    the arguments pass every check, and the read returns 0, not
    [-EDQUOT], because the channel is at end of file. *)
Lemma ZVMReadHandle_spent_at_eof :
  quota (Channel.limits spent_at_eof) GetsLimit
    <= quota (Channel.counters spent_at_eof) GetsLimit
  /\ CH_CH (session [spent_at_eof]) 0 = Some spent_at_eof
  /\ CheckUserMap mem0 (NaClUserToSysAddrNullOkay 4096) 10 PROT_WRITE = 0
  /\ ZVMReadHandle (session [spent_at_eof]) 0 4096 10 0
     = (0, session [spent_at_eof])
  /\ fst (ZVMReadHandle (session [spent_at_eof]) 0 4096 10 0) <> - EDQUOT.
Proof.
  split; [vm_compute; congruence |]. split; [reflexivity |].
  split; [reflexivity |]. split; [reflexivity |].
  vm_compute. congruence.
Qed.

Lemma ZVMProtHandle_rejected_code_run :
  ZVMProtHandle mem0 0 65536 PROT_EXEC = (- EPERM, mem0).
Proof.
  apply (ZVMProtHandle_rejected_code (AS := address_space));
    [left; reflexivity | reflexivity | reflexivity
    | vm_compute; congruence | reflexivity | reflexivity].
Defined.

Lemma ZVMProtHandle_unaligned_run :
  ZVMProtHandle mem0 100 65536 PROT_READ = (- EINVAL, mem0).
Proof. apply (ZVMProtHandle_unaligned (AS := address_space)). right. vm_compute. congruence. Defined.

Lemma ZVMReadHandle_eof_run :
  ZVMReadHandle (session [at_eof]) 0 4096 10 0 = (0, session [at_eof]).
Proof.
  apply (ZVMReadHandle_eof _ _ _ _ _ at_eof);
    [vm_compute; split; congruence | reflexivity | reflexivity
    | lia | lia | right; vm_compute; congruence].
Defined.

Lemma count_quota_exhausted_run :
  ZVMReadHandle (session [spent]) 0 4096 10 0 = (- EDQUOT, session [spent])
  /\ ZVMWriteHandle (session [spent]) 0 4096 10 0
     = (- EDQUOT, session [spent]).
Proof.
  destruct (count_quota_exhausted (session [spent]) 0 4096 10 0 spent)
    as [Hread Hwrite];
    [vm_compute; split; congruence | reflexivity | lia | lia |].
  split.
  - apply Hread;
      [vm_compute; congruence | vm_compute; congruence | reflexivity
      | right; vm_compute; congruence].
  - apply Hwrite; vm_compute; congruence.
Defined.

Lemma ZVMWriteHandle_offset_bounds_run :
  ZVMWriteHandle (session [fresh]) 0 4096 60 1000
    = (- EINVAL, session [fresh]).
Proof.
  apply (ZVMWriteHandle_offset_bounds _ _ _ _ _ fresh);
    [vm_compute; split; congruence | reflexivity | lia | lia
    | vm_compute; congruence | vm_compute; reflexivity
    | left; split; [reflexivity | vm_compute; congruence]].
Defined.

Lemma ZVMWriteHandle_sequential_extent_run :
  ZVMWriteHandle (session [pipe]) 0 4096 10 0 = (- EINVAL, session [pipe]).
Proof.
  apply (ZVMWriteHandle_sequential_extent _ _ _ _ _ pipe);
    [vm_compute; split; congruence | reflexivity | lia | lia
    | vm_compute; congruence | vm_compute; reflexivity | reflexivity
    | vm_compute; congruence].
Defined.

Lemma zero_size_request_run :
  CheckUserMap mem0 (NaClUserToSysAddrNullOkay (2 ^ 20)) 1 PROT_WRITE = -1
  /\ ZVMReadHandle (session [fresh]) 0 (2 ^ 20) 0 0 = (0, session [fresh])
  /\ ZVMWriteHandle (session [fresh]) 0 (2 ^ 20) 0 0 = (0, session [fresh]).
Proof.
  split; [reflexivity |].
  apply zero_size_request; [vm_compute; split; congruence | lia].
Defined.

Lemma TrapHandler_args_overflow_run :
  TrapHandler (session [fresh]) (2 ^ 32 - 1)
    = Returned (- EFAULT) (session [fresh]).
Proof. apply TrapHandler_args_overflow. lia. Defined.

Lemma TrapHandler_unknown_code_run :
  exists nap',
    TrapHandler (session [fresh]) 64 = Returned (- EPERM) nap'
    /\ channels nap' = [fresh]
    /\ memory nap' = mem0
    /\ report nap' = no_report
    /\ ztrace nap' =
       [ZTrace "untrusted code"%string; SyscallZTrace 7 [- EPERM; 0; 0; 0; 0]].
Proof.
  apply (TrapHandler_unknown_code (session [fresh]) 64);
    [lia | vm_compute; intuition congruence].
Defined.

End Runs.

(** * Further properties of the handlers *)

(** ** The checks of the arguments of a read and of a write *)

Section ArgumentChecks.
Context `{IO : Collaborators}.

(** X1.  A handle that is negative or not below the length of the
    channel table makes both handlers return [-EINVAL], whatever the
    other arguments are; the session is as before. *)
Theorem bad_handle_rejected (nap : NaClApp) (ch buffer size offset : Z) :
  ch < 0 \/ Z.of_nat (length (channels nap)) <= ch ->
  ZVMReadHandle nap ch buffer size offset = (- EINVAL, nap)
  /\ ZVMWriteHandle nap ch buffer size offset = (- EINVAL, nap).
Proof.
  intros Hch.
  assert (Hbad : bad_channel nap ch = true).
  { unfold bad_channel. rewrite Z.geb_leb.
    destruct (Z.ltb_spec ch 0); [reflexivity |].
    destruct (Z.leb_spec (Z.of_nat (length (channels nap))) ch);
      [reflexivity | lia]. }
  unfold ZVMReadHandle, ZVMWriteHandle. rewrite Hbad. split; reflexivity.
Qed.

(** X2.  On a valid handle a negative size makes both handlers return
    [-EFAULT]: the size is looked at before the offset and before the
    buffer, so the answer is the same for every offset and pointer. *)
Theorem negative_size_rejected (nap : NaClApp) (ch buffer size offset : Z) :
  valid_channel nap ch ->
  size < 0 ->
  ZVMReadHandle nap ch buffer size offset = (- EFAULT, nap)
  /\ ZVMWriteHandle nap ch buffer size offset = (- EFAULT, nap).
Proof.
  intros Hch Hsize.
  destruct (CH_CH_valid _ _ Hch) as [channel Hc].
  unfold ZVMReadHandle, ZVMWriteHandle.
  rewrite (bad_channel_valid _ _ Hch), Hc.
  destruct (Z.ltb_spec size 0); [| lia]. split; reflexivity.
Qed.

(** X3.  On a valid handle, with a size that is not negative, a negative
    offset makes both handlers return [-EINVAL].  This holds for the size
    0 as well, and for a sequential channel, whose handler would not use
    the offset. *)
Theorem negative_offset_rejected (nap : NaClApp) (ch buffer size offset : Z) :
  valid_channel nap ch ->
  0 <= size ->
  offset < 0 ->
  ZVMReadHandle nap ch buffer size offset = (- EINVAL, nap)
  /\ ZVMWriteHandle nap ch buffer size offset = (- EINVAL, nap).
Proof.
  intros Hch Hsize Hoff.
  destruct (CH_CH_valid _ _ Hch) as [channel Hc].
  unfold ZVMReadHandle, ZVMWriteHandle.
  rewrite (bad_channel_valid _ _ Hch), Hc.
  destruct (Z.ltb_spec size 0); [lia |].
  destruct (Z.ltb_spec offset 0); [| lia]. split; reflexivity.
Qed.

(** X4.  With a valid handle, a size above 0 and an offset that is not
    negative, a buffer that [CheckUserMap] refuses ends the call with
    [-EINVAL] before the channel is looked at: a read needs the buffer
    writable, a write needs it readable. *)
Theorem unchecked_buffer_rejected (nap : NaClApp)
    (ch buffer size offset : Z) :
  valid_channel nap ch ->
  0 < size ->
  0 <= offset ->
  (CheckUserMap (memory nap) (NaClUserToSysAddrNullOkay buffer) size
     PROT_WRITE = -1 ->
   ZVMReadHandle nap ch buffer size offset = (- EINVAL, nap))
  /\ (CheckUserMap (memory nap) (NaClUserToSysAddrNullOkay buffer) size
        PROT_READ = -1 ->
      ZVMWriteHandle nap ch buffer size offset = (- EINVAL, nap)).
Proof.
  intros Hch Hsize Hoff.
  destruct (CH_CH_valid _ _ Hch) as [channel Hc].
  unfold ZVMReadHandle, ZVMWriteHandle.
  rewrite (bad_channel_valid _ _ Hch), Hc.
  destruct (Z.ltb_spec size 0); [lia |].
  destruct (Z.ltb_spec offset 0); [lia |].
  destruct (Z.eqb_spec size 0); [lia |].
  split; intros ->; reflexivity.
Qed.

(** X5.  A sequential readable channel is read at its cursor: two reads
    that differ only in the offset, neither of them negative, give the
    same result and the same session. *)
Theorem sequential_read_ignores_offset (nap : NaClApp)
    (ch buffer size offset1 offset2 : Z) (channel : ChannelDesc) :
  CH_CH nap ch = Some channel ->
  CH_SEQ_READABLE channel = true ->
  0 <= offset1 ->
  0 <= offset2 ->
  ZVMReadHandle nap ch buffer size offset1
  = ZVMReadHandle nap ch buffer size offset2.
Proof.
  intros Hc Hseq H1 H2. unfold ZVMReadHandle.
  rewrite Hc, Hseq.
  destruct (Z.ltb_spec offset1 0); [lia |].
  destruct (Z.ltb_spec offset2 0); [lia |].
  reflexivity.
Qed.

(** X6.  A sequential writable channel is written at its cursor: two
    writes that differ only in the offset, neither of them negative, give
    the same result and the same session. *)
Theorem sequential_write_ignores_offset (nap : NaClApp)
    (ch buffer size offset1 offset2 : Z) (channel : ChannelDesc) :
  CH_CH nap ch = Some channel ->
  CH_SEQ_WRITEABLE channel = true ->
  0 <= offset1 ->
  0 <= offset2 ->
  ZVMWriteHandle nap ch buffer size offset1
  = ZVMWriteHandle nap ch buffer size offset2.
Proof.
  intros Hc Hseq H1 H2. unfold ZVMWriteHandle.
  rewrite Hc, Hseq.
  destruct (Z.ltb_spec offset1 0); [lia |].
  destruct (Z.ltb_spec offset2 0); [lia |].
  reflexivity.
Qed.

End ArgumentChecks.

(** ** What a read and a write hand to the channel *)

Section Delegation.
Context `{IO : Collaborators}.

(** The two ways out of [read_checked]: 0 or [-EDQUOT] with the session
    as it was, or one [ChannelRead] of at least one byte, of no more
    than the size on entry and no more than what the byte quota leaves. *)
Lemma read_checked_cases (nap : NaClApp) (ch : Z) (channel : ChannelDesc)
    (sys_buffer size offset : Z) :
  size < 2 ^ 31 ->
  - 2 ^ 31 <= sub64 (quota (Channel.limits channel) GetSizeLimit)
                    (quota (Channel.counters channel) GetSizeLimit) ->
  (exists code, In code [0; - EDQUOT]
     /\ read_checked nap ch channel sys_buffer size offset = (code, nap))
  \/ (exists s,
        1 <= s <= size
        /\ s <= sub64 (quota (Channel.limits channel) GetSizeLimit)
                      (quota (Channel.counters channel) GetSizeLimit)
        /\ read_checked nap ch channel sys_buffer size offset
           = read_done nap ch
               (ChannelRead channel (memory nap) sys_buffer s offset)).
Proof.
  intros Hsize Htail. unfold read_checked.
  set (tail := sub64 _ _) in *.
  destruct (Channel.eof channel).
  { left. exists 0. split; [left; reflexivity | reflexivity]. }
  destruct (_ >=? _).
  { left. exists (- EDQUOT). split; [right; left; reflexivity | reflexivity]. }
  cbv zeta. rewrite Z.gtb_ltb.
  destruct (Z.ltb_spec tail size) as [Hlt | Hge].
  - rewrite to_int32_exact by (unfold is_int32; lia).
    destruct (Z.ltb_spec tail 1).
    + left. exists (- EDQUOT).
      split; [right; left; reflexivity | reflexivity].
    + right. exists tail. repeat split; lia || reflexivity.
  - destruct (Z.ltb_spec size 1).
    + left. exists (- EDQUOT).
      split; [right; left; reflexivity | reflexivity].
    + right. exists size. repeat split; lia || reflexivity.
Qed.

(** X7.  How a read ends.  Either the handler returns one of 0,
    [-EINVAL], [-EFAULT], [-EDQUOT] and the session is as before, or it
    makes one call of [ChannelRead], on the buffer it has checked for
    [size] bytes, for [s] bytes with [1 <= s <= size], with [s] no more
    than what is left of the byte quota and, on a channel that is not
    sequential, no more than [channel->size - offset].  The byte quota is
    assumed not to be overdrawn by [2^31] or more, and the offset of a
    channel that is not sequential not to exceed its size by more than
    [2^31]. *)
Theorem ZVMReadHandle_delegation (nap : NaClApp) (ch buffer size offset : Z)
    (channel : ChannelDesc) :
  CH_CH nap ch = Some channel ->
  is_int32 size ->
  - 2 ^ 31 <= sub64 (quota (Channel.limits channel) GetSizeLimit)
                    (quota (Channel.counters channel) GetSizeLimit) ->
  CH_SEQ_READABLE channel = true
  \/ - 2 ^ 31 <= sub64 (Channel.size channel) offset ->
  (exists code, In code [0; - EINVAL; - EFAULT; - EDQUOT]
     /\ ZVMReadHandle nap ch buffer size offset = (code, nap))
  \/ (exists s,
        1 <= s <= size
        /\ s <= sub64 (quota (Channel.limits channel) GetSizeLimit)
                      (quota (Channel.counters channel) GetSizeLimit)
        /\ (CH_SEQ_READABLE channel = true
            \/ s <= sub64 (Channel.size channel) offset)
        /\ CheckUserMap (memory nap) (NaClUserToSysAddrNullOkay buffer) size
             PROT_WRITE <> -1
        /\ ZVMReadHandle nap ch buffer size offset
           = read_done nap ch
               (ChannelRead channel (memory nap)
                  (NaClUserToSysAddrNullOkay buffer) s
                  (if CH_SEQ_READABLE channel then Channel.getpos channel
                   else offset))).
Proof.
  intros Hc Hsize Htail Hpast. unfold is_int32 in Hsize.
  unfold ZVMReadHandle.
  destruct (bad_channel nap ch).
  { left. exists (- EINVAL). simpl. tauto. }
  rewrite Hc.
  destruct (Z.ltb_spec size 0).
  { left. exists (- EFAULT). simpl. tauto. }
  destruct (Z.ltb_spec offset 0).
  { left. exists (- EINVAL). simpl. tauto. }
  destruct (Z.eqb_spec size 0).
  { left. exists 0. simpl. tauto. }
  match goal with
  | |- context [?check =? -1] =>
      destruct (Z.eqb_spec check (-1)) as [| Hbuf]
  end.
  { left. exists (- EINVAL). simpl. tauto. }
  cbv zeta. destruct (CH_SEQ_READABLE channel) eqn:Hseq.
  - destruct (read_checked_cases nap ch channel
                (NaClUserToSysAddrNullOkay buffer) size
                (Channel.getpos channel))
      as [(code & Hin & E) | (s & Hs & Hq & E)]; [lia | exact Htail | |].
    + left. exists code. split; [simpl in *; tauto | exact E].
    + right. exists s.
      repeat split; try lia; try exact Hbuf; try exact E;
        try (left; reflexivity).
  - destruct Hpast as [? | Hpast]; [discriminate |].
    set (d := sub64 (Channel.size channel) offset) in *.
    assert (Hmin : - 2 ^ 31 <= MIN d size <= size /\ MIN d size <= d).
    { unfold MIN. destruct (Z.ltb_spec d size); lia. }
    rewrite to_int32_exact by (unfold is_int32; lia).
    destruct (Z.eqb_spec (MIN d size) 0).
    { left. exists 0. simpl. tauto. }
    destruct (read_checked_cases nap ch channel
                (NaClUserToSysAddrNullOkay buffer) (MIN d size) offset)
      as [(code & Hin & E) | (s & Hs & Hq & E)]; [lia | exact Htail | |].
    + left. exists code. split; [simpl in *; tauto | exact E].
    + right. exists s.
      repeat split; try lia; try exact Hbuf; try exact E;
        try (right; lia).
Qed.

(** X8.  How a write ends.  Either the handler returns one of 0,
    [-EINVAL], [-EFAULT], [-EDQUOT] and the session is as before, or it
    makes one call of [ChannelWrite], on the buffer it has checked for
    [size] bytes, for [s] bytes with [1 <= s <= size] and [s] no more
    than what is left of the byte quota, at an offset below
    [channel->size + tail] and, on a random access channel, below the
    byte limit.  The byte quota is assumed not to be overdrawn by [2^31]
    or more. *)
Theorem ZVMWriteHandle_delegation (nap : NaClApp) (ch buffer size offset : Z)
    (channel : ChannelDesc) :
  CH_CH nap ch = Some channel ->
  is_int32 size ->
  - 2 ^ 31 <= sub64 (quota (Channel.limits channel) PutSizeLimit)
                    (quota (Channel.counters channel) PutSizeLimit) ->
  (exists code, In code [0; - EINVAL; - EFAULT; - EDQUOT]
     /\ ZVMWriteHandle nap ch buffer size offset = (code, nap))
  \/ (exists s eff,
        eff = (if CH_SEQ_WRITEABLE channel then Channel.putpos channel
               else offset)
        /\ 1 <= s <= size
        /\ s <= sub64 (quota (Channel.limits channel) PutSizeLimit)
                      (quota (Channel.counters channel) PutSizeLimit)
        /\ eff < add64 (Channel.size channel)
                   (sub64 (quota (Channel.limits channel) PutSizeLimit)
                          (quota (Channel.counters channel) PutSizeLimit))
        /\ (CH_RND_WRITEABLE channel = false
            \/ eff < quota (Channel.limits channel) PutSizeLimit)
        /\ CheckUserMap (memory nap) (NaClUserToSysAddrNullOkay buffer) size
             PROT_READ <> -1
        /\ ZVMWriteHandle nap ch buffer size offset
           = write_done nap ch
               (ChannelWrite channel (memory nap)
                  (NaClUserToSysAddrNullOkay buffer) s eff)).
Proof.
  intros Hc Hsize Htail. unfold is_int32 in Hsize.
  unfold ZVMWriteHandle.
  destruct (bad_channel nap ch).
  { left. exists (- EINVAL). simpl. tauto. }
  rewrite Hc.
  destruct (Z.ltb_spec size 0).
  { left. exists (- EFAULT). simpl. tauto. }
  destruct (Z.ltb_spec offset 0).
  { left. exists (- EINVAL). simpl. tauto. }
  destruct (Z.eqb_spec size 0).
  { left. exists 0. simpl. tauto. }
  match goal with
  | |- context [?check =? -1] =>
      destruct (Z.eqb_spec check (-1)) as [| Hbuf]
  end.
  { left. exists (- EINVAL). simpl. tauto. }
  cbv zeta.
  set (eff := if CH_SEQ_WRITEABLE channel then Channel.putpos channel
              else offset).
  set (tail := sub64 _ _) in *.
  destruct (_ >=? _).
  { left. exists (- EDQUOT). simpl. tauto. }
  assert (Hrnd : CH_RND_WRITEABLE channel
                 && (eff >=? quota (Channel.limits channel) PutSizeLimit)
                 = false ->
                 CH_RND_WRITEABLE channel = false
                 \/ eff < quota (Channel.limits channel) PutSizeLimit).
  { destruct (CH_RND_WRITEABLE channel); [| left; reflexivity].
    cbn [andb]. rewrite Z.geb_leb. intros Hlim%Z.leb_gt. right. exact Hlim. }
  destruct (_ && _).
  { left. exists (- EINVAL). simpl. tauto. }
  specialize (Hrnd eq_refl).
  rewrite Z.geb_leb.
  destruct (Z.leb_spec (add64 (Channel.size channel) tail) eff).
  { left. exists (- EINVAL). simpl. tauto. }
  rewrite Z.gtb_ltb.
  destruct (Z.ltb_spec tail size).
  - rewrite to_int32_exact by (unfold is_int32; lia).
    destruct (Z.ltb_spec tail 1).
    { left. exists (- EDQUOT). simpl. tauto. }
    right. exists tail, eff. repeat split; try lia; try assumption.
  - destruct (Z.ltb_spec size 1); [lia |].
    right. exists size, eff. repeat split; try lia; try assumption.
Qed.

End Delegation.

(** ** What a read and a write leave alone *)

Section Frames.
Context `{IO : Collaborators}.





End Frames.

(** ** The branches of the protection handler *)

Section ProtectionBranches.
Context `{AS : AddressSpace}.

(** X13.  An aligned request over a range that is not in the user map is
    refused with [-EACCES] for every protection, the six accepted ones
    included; the memory is as before. *)
Theorem ZVMProtHandle_unmapped (m : Mem) (addr size prot : Z) :
  size mod NACL_MAP_PAGESIZE = 0 ->
  NaClUserToSysAddrNullOkay addr mod NACL_MAP_PAGESIZE = 0 ->
  CheckUserMap m (NaClUserToSysAddrNullOkay addr) size 0 < 0 ->
  ZVMProtHandle m addr size prot = (- EACCES, m).
Proof.
  intros Hsize Haddr Hmap. unfold ZVMProtHandle.
  rewrite Hsize, Haddr. cbn [Z.eqb negb].
  destruct (Z.ltb_spec (CheckUserMap m (NaClUserToSysAddrNullOkay addr) size 0) 0);
    [reflexivity | lia].
Qed.

(** X14.  A request for [PROT_EXEC] or [PROT_READ | PROT_EXEC] over an
    aligned, mapped range that is not readable is refused with
    [-EACCES]; the memory is as before, whatever the validator would
    have said. *)
Theorem ZVMProtHandle_exec_unreadable (m : Mem) (addr size prot : Z) :
  prot = PROT_EXEC \/ prot = Z.lor PROT_READ PROT_EXEC ->
  size mod NACL_MAP_PAGESIZE = 0 ->
  NaClUserToSysAddrNullOkay addr mod NACL_MAP_PAGESIZE = 0 ->
  0 <= CheckUserMap m (NaClUserToSysAddrNullOkay addr) size 0 ->
  CheckUserMap m (NaClUserToSysAddrNullOkay addr) size PROT_READ <> 0 ->
  ZVMProtHandle m addr size prot = (- EACCES, m).
Proof.
  intros Hprot Hsize Haddr Hmap Hread. unfold ZVMProtHandle.
  rewrite Hsize, Haddr. cbn [Z.eqb negb].
  destruct (Z.ltb_spec (CheckUserMap m (NaClUserToSysAddrNullOkay addr) size 0) 0);
    [lia |].
  destruct (Z.eqb_spec
    (CheckUserMap m (NaClUserToSysAddrNullOkay addr) size PROT_READ) 0);
    [contradiction |].
  destruct Hprot as [-> | ->]; reflexivity.
Qed.

(** X15.  A protection that is none of the six the handler knows, so
    every one with [PROT_WRITE] and [PROT_EXEC] together, changes
    nothing: the handler returns [-EINVAL], [-EACCES] or [-EPERM] and
    the memory is as before. *)
Theorem ZVMProtHandle_other_flags (m : Mem) (addr size prot : Z) :
  ~ In prot [PROT_NONE; PROT_READ; PROT_WRITE; Z.lor PROT_READ PROT_WRITE;
             PROT_EXEC; Z.lor PROT_READ PROT_EXEC] ->
  exists code,
    In code [- EINVAL; - EACCES; - EPERM]
    /\ ZVMProtHandle m addr size prot = (code, m).
Proof.
  intros Hprot.
  assert (Hne : forall p,
             In p [PROT_NONE; PROT_READ; PROT_WRITE;
                   Z.lor PROT_READ PROT_WRITE; PROT_EXEC;
                   Z.lor PROT_READ PROT_EXEC] -> (prot =? p) = false).
  { intros p Hin. apply Z.eqb_neq. intros ->. contradiction. }
  unfold ZVMProtHandle. rewrite !Hne by (simpl; tauto). cbn [orb].
  destruct (negb _); [exists (- EINVAL); simpl; tauto |].
  destruct (negb _); [exists (- EINVAL); simpl; tauto |].
  destruct (_ <? 0); [exists (- EACCES) | exists (- EPERM)]; simpl; tauto.
Qed.

(** X16.  For [PROT_NONE], [PROT_READ], [PROT_WRITE] and
    [PROT_READ | PROT_WRITE] over an aligned, mapped range the handler
    is [Zmprotect]: 0 when it succeeds, [-errno] when it fails, and the
    memory it leaves.  The validator plays no part. *)
Theorem ZVMProtHandle_plain (m : Mem) (addr size prot : Z) :
  In prot [PROT_NONE; PROT_READ; PROT_WRITE; Z.lor PROT_READ PROT_WRITE] ->
  size mod NACL_MAP_PAGESIZE = 0 ->
  NaClUserToSysAddrNullOkay addr mod NACL_MAP_PAGESIZE = 0 ->
  0 <= CheckUserMap m (NaClUserToSysAddrNullOkay addr) size 0 ->
  ZVMProtHandle m addr size prot =
    let '(rc, errno, m') :=
      Zmprotect m (NaClUserToSysAddrNullOkay addr) size prot in
    ((if rc =? 0 then 0 else - errno), m').
Proof.
  intros Hprot Hsize Haddr Hmap. unfold ZVMProtHandle.
  rewrite Hsize, Haddr. cbn [Z.eqb negb].
  destruct (Z.ltb_spec (CheckUserMap m (NaClUserToSysAddrNullOkay addr) size 0) 0);
    [lia |].
  assert (Hplain : (prot =? PROT_NONE) || (prot =? PROT_READ)
                   || (prot =? PROT_WRITE)
                   || (prot =? Z.lor PROT_READ PROT_WRITE) = true).
  { simpl in Hprot. destruct Hprot as [<- | [<- | [<- | [<- | []]]]];
      reflexivity. }
  rewrite Hplain.
  destruct (Zmprotect _ _ _ _) as [[rc errno] m'].
  destruct (rc =? 0); reflexivity.
Qed.

End ProtectionBranches.

(** ** The dispatcher, branch by branch *)

Lemma to_int32_negative (x : Z) : 2 ^ 31 <= x mod 2 ^ 32 -> to_int32 x < 0.
Proof.
  intros Hx. unfold to_int32, to_signed.
  change (2 ^ (32 - 1)) with (2 ^ 31).
  pose proof (Z.mod_pos_bound x (2 ^ 32) ltac:(lia)) as Hbound.
  rewrite <- Z.add_mod_idemp_l by lia.
  replace (x mod 2 ^ 32 + 2 ^ 31)
    with (x mod 2 ^ 32 - 2 ^ 31 + 1 * 2 ^ 32) by lia.
  rewrite Z_mod_plus_full, Z.mod_small by lia. lia.
Qed.

Section DispatcherBranches.
Context `{IO : Collaborators}.



End DispatcherBranches.

Section DispatcherLifecycle.
Context `{IO : Collaborators}.

(** X18.  An exit trap does not return to the guest.  The session ends
    with the code of word 2 as its user code; the state label becomes
    [OK_STATE] only when no host error code is on record, otherwise the
    label and the code of the host error stay.  Channels and memory are
    untouched and the trace gains the entry and the call. *)
Theorem TrapHandler_exit (nap : NaClApp) (args : Z) :
  args <= 2 ^ 32 - 48 ->
  word nap (NaClUserToSys args) 0 = TrapExit ->
  TrapExit <> TrapFork ->
  exists nap',
    TrapHandler nap args = SessionEnded nap'
    /\ user_code (report nap') = word nap (NaClUserToSys args) 2
    /\ zvm_code (report nap') = zvm_code (report nap)
    /\ zvm_state (report nap') =
       (if zvm_code (report nap) =? 0 then Some OK_STATE
        else zvm_state (report nap))
    /\ channels nap' = channels nap
    /\ memory nap' = memory nap
    /\ ztrace nap' =
       ztrace nap ++
       [ZTrace "untrusted code"%string;
        SyscallZTrace TrapExit [word nap (NaClUserToSys args) 2]].
Proof.
  intros Hargs Hop Hne. unfold TrapHandler.
  rewrite Z.gtb_ltb, minus_48u_value.
  destruct (Z.ltb_spec (2 ^ 32 - 48) args); [lia |].
  cbv zeta.
  change (word (trace (ZTrace "untrusted code"%string) nap)
            (NaClUserToSys args))
    with (word nap (NaClUserToSys args)).
  rewrite Hop.
  apply Z.eqb_neq in Hne. rewrite Hne, Z.eqb_refl.
  eexists. split; [reflexivity |].
  cbn [ZVMExitHandle trace report channels memory ztrace user_code zvm_code
       zvm_state].
  repeat split. rewrite <- app_assoc. reflexivity.
Qed.

(** X19.  A fork trap returns to the guest exactly when [Daemon] fails:
    then the guest gets the code of [Daemon], which is not 0.  When
    [Daemon] returns 0 the session ends with the user code 0, and the
    fork and an exit are the last two calls on the trace. *)
Theorem TrapHandler_fork (nap : NaClApp) (args : Z) :
  args <= 2 ^ 32 - 48 ->
  word nap (NaClUserToSys args) 0 = TrapFork ->
  match TrapHandler nap args with
  | Returned retcode nap' =>
      retcode = fst (Daemon (trace (ZTrace "untrusted code"%string) nap))
      /\ retcode <> 0
  | SessionEnded nap' =>
      fst (Daemon (trace (ZTrace "untrusted code"%string) nap)) = 0
      /\ user_code (report nap') = 0
      /\ exists before,
           ztrace nap' =
           before ++ [SyscallZTrace
                        (word nap' (NaClUserToSys args) 0) [0];
                      SyscallZTrace TrapExit [0]]
  end.
Proof.
  intros Hargs Hop. unfold TrapHandler.
  rewrite Z.gtb_ltb, minus_48u_value.
  destruct (Z.ltb_spec (2 ^ 32 - 48) args); [lia |].
  cbv zeta.
  change (word (trace (ZTrace "untrusted code"%string) nap)
            (NaClUserToSys args) 0)
    with (word nap (NaClUserToSys args) 0).
  rewrite Hop, Z.eqb_refl.
  destruct (Daemon _) as [retcode nap2]. cbn [fst].
  destruct (Z.eqb_spec retcode 0) as [-> | Hfail]; cbn [negb].
  - split; [reflexivity |]. split; [reflexivity |].
    exists (ztrace nap2).
    cbn [ZVMExitHandle trace ztrace]. rewrite <- app_assoc. reflexivity.
  - split; [reflexivity | exact Hfail].
Qed.

(** X20.  The size of a read or a write is the low 32 bits of word 4,
    taken as signed: on a valid handle a word with bit 31 set is a
    negative size, and the trap returns [-EFAULT] with channels and
    memory untouched. *)
Theorem TrapHandler_size_sign (nap : NaClApp) (args : Z) :
  args <= 2 ^ 32 - 48 ->
  word nap (NaClUserToSys args) 0 = TrapRead
  \/ word nap (NaClUserToSys args) 0 = TrapWrite ->
  word nap (NaClUserToSys args) 0 <> TrapFork ->
  word nap (NaClUserToSys args) 0 <> TrapExit ->
  valid_channel nap (to_int32 (word nap (NaClUserToSys args) 2)) ->
  2 ^ 31 <= word nap (NaClUserToSys args) 4 mod 2 ^ 32 ->
  exists nap',
    TrapHandler nap args = Returned (- EFAULT) nap'
    /\ channels nap' = channels nap
    /\ memory nap' = memory nap.
Proof.
  intros Hargs Hop Hfork Hexit Hch Hsize. unfold TrapHandler.
  rewrite Z.gtb_ltb, minus_48u_value.
  destruct (Z.ltb_spec (2 ^ 32 - 48) args); [lia |].
  cbv zeta.
  set (nap1 := trace (ZTrace "untrusted code"%string) nap).
  set (sargs := NaClUserToSys args) in *.
  change (word nap1 sargs) with (word nap sargs).
  apply Z.eqb_neq in Hfork, Hexit. rewrite Hfork, Hexit.
  apply to_int32_negative in Hsize.
  assert (Hch1 : valid_channel nap1 (to_int32 (word nap sargs 2)))
    by exact Hch.
  destruct (CH_CH_valid _ _ Hch1) as [channel Hc].
  assert (Hread : forall buffer offset,
    ZVMReadHandle nap1 (to_int32 (word nap sargs 2)) buffer
      (to_int32 (word nap sargs 4)) offset = (- EFAULT, nap1)).
  { intros. unfold ZVMReadHandle.
    rewrite (bad_channel_valid _ _ Hch1), Hc.
    destruct (Z.ltb_spec (to_int32 (word nap sargs 4)) 0);
      [reflexivity | lia]. }
  assert (Hwrite : forall buffer offset,
    ZVMWriteHandle nap1 (to_int32 (word nap sargs 2)) buffer
      (to_int32 (word nap sargs 4)) offset = (- EFAULT, nap1)).
  { intros. unfold ZVMWriteHandle.
    rewrite (bad_channel_valid _ _ Hch1), Hc.
    destruct (Z.ltb_spec (to_int32 (word nap sargs 4)) 0);
      [reflexivity | lia]. }
  destruct (Z.eqb_spec (word nap sargs 0) TrapRead) as [| Hnr].
  - rewrite Hread. eexists. split; [reflexivity |]. split; reflexivity.
  - destruct Hop as [? | Hop]; [contradiction |].
    rewrite Hop, Z.eqb_refl, Hwrite.
    eexists. split; [reflexivity |]. split; reflexivity.
Qed.

End DispatcherLifecycle.

(** ** Further runs on the reference implementation *)

Section MoreRuns.
Import Reference.

Lemma bad_handle_rejected_run :
  ZVMReadHandle (session [fresh]) 1 4096 10 0 = (- EINVAL, session [fresh])
  /\ ZVMWriteHandle (session [fresh]) 1 4096 10 0
     = (- EINVAL, session [fresh]).
Proof. apply bad_handle_rejected. right. vm_compute. congruence. Defined.

Lemma negative_size_rejected_run :
  ZVMReadHandle (session [fresh]) 0 4096 (-5) 0 = (- EFAULT, session [fresh])
  /\ ZVMWriteHandle (session [fresh]) 0 4096 (-5) 0
     = (- EFAULT, session [fresh]).
Proof.
  apply negative_size_rejected; [vm_compute; split; congruence | lia].
Defined.

Lemma negative_offset_rejected_run :
  ZVMReadHandle (session [stream]) 0 4096 0 (-1)
    = (- EINVAL, session [stream])
  /\ ZVMWriteHandle (session [stream]) 0 4096 0 (-1)
     = (- EINVAL, session [stream]).
Proof.
  apply negative_offset_rejected; [vm_compute; split; congruence | lia | lia].
Defined.

Lemma unchecked_buffer_rejected_run :
  ZVMReadHandle (session [fresh]) 0 (2 ^ 20) 1 0 = (- EINVAL, session [fresh])
  /\ ZVMWriteHandle (session [fresh]) 0 (2 ^ 20) 1 0
     = (- EINVAL, session [fresh]).
Proof.
  destruct (unchecked_buffer_rejected (session [fresh]) 0 (2 ^ 20) 1 0)
    as [Hread Hwrite]; [vm_compute; split; congruence | lia | lia |].
  split; [apply Hread | apply Hwrite]; reflexivity.
Defined.

Lemma sequential_read_ignores_offset_run :
  ZVMReadHandle (session [stream]) 0 4096 10 0
  = ZVMReadHandle (session [stream]) 0 4096 10 999.
Proof.
  apply (sequential_read_ignores_offset _ _ _ _ _ _ stream);
    [reflexivity | reflexivity | lia | lia].
Defined.

Lemma sequential_write_ignores_offset_run :
  ZVMWriteHandle (session [stream]) 0 4096 10 0
  = ZVMWriteHandle (session [stream]) 0 4096 10 999.
Proof.
  apply (sequential_write_ignores_offset _ _ _ _ _ _ stream);
    [reflexivity | reflexivity | lia | lia].
Defined.

Lemma ZVMReadHandle_delegation_run :
  (exists code, In code [0; - EINVAL; - EFAULT; - EDQUOT]
     /\ ZVMReadHandle (session [fresh]) 0 4096 10 95
        = (code, session [fresh]))
  \/ (exists s,
        1 <= s <= 10
        /\ s <= sub64 1000 0
        /\ (CH_SEQ_READABLE fresh = true \/ s <= sub64 100 95)
        /\ CheckUserMap mem0 (NaClUserToSysAddrNullOkay 4096) 10 PROT_WRITE
           <> -1
        /\ ZVMReadHandle (session [fresh]) 0 4096 10 95
           = read_done (session [fresh]) 0
               (ChannelRead fresh mem0 (NaClUserToSysAddrNullOkay 4096) s
                  95)).
Proof.
  refine (ZVMReadHandle_delegation (session [fresh]) 0 4096 10 95 fresh
            _ _ _ _);
    [reflexivity | unfold is_int32; lia | vm_compute; congruence
    | right; vm_compute; congruence].
Defined.

Lemma ZVMWriteHandle_delegation_run :
  (exists code, In code [0; - EINVAL; - EFAULT; - EDQUOT]
     /\ ZVMWriteHandle (session [fresh]) 0 4096 60 0
        = (code, session [fresh]))
  \/ (exists s eff,
        eff = 0
        /\ 1 <= s <= 60
        /\ s <= sub64 1000 0
        /\ eff < add64 100 (sub64 1000 0)
        /\ (CH_RND_WRITEABLE fresh = false \/ eff < 1000)
        /\ CheckUserMap mem0 (NaClUserToSysAddrNullOkay 4096) 60 PROT_READ
           <> -1
        /\ ZVMWriteHandle (session [fresh]) 0 4096 60 0
           = write_done (session [fresh]) 0
               (ChannelWrite fresh mem0 (NaClUserToSysAddrNullOkay 4096) s
                  eff)).
Proof.
  refine (ZVMWriteHandle_delegation (session [fresh]) 0 4096 60 0 fresh
            _ _ _);
    [reflexivity | unfold is_int32; lia | vm_compute; congruence].
Defined.

Lemma ZVMReadHandle_at_end_run :
  ZVMReadHandle (session [fresh]) 0 4096 10 100 = (0, session [fresh]).
Proof.
  apply (ZVMReadHandle_at_end _ _ _ _ _ fresh);
    [vm_compute; split; congruence | reflexivity | lia | lia
    | vm_compute; congruence | reflexivity | reflexivity].
Defined.

Lemma ZVMReadHandle_clamped_run :
  ZVMReadHandle (session [fresh]) 0 4096 10 95
  = read_checked (session [fresh]) 0 fresh (NaClUserToSysAddrNullOkay 4096)
      (Z.min 10 (100 - 95)) 95.
Proof.
  apply (ZVMReadHandle_clamped _ _ _ _ _ fresh);
    [vm_compute; split; congruence | reflexivity | lia | unfold is_int32; lia
    | lia | vm_compute; congruence | reflexivity
    | unfold is_int64; cbn [Channel.size fresh]; lia
    | cbn [Channel.size fresh]; lia].
Defined.

Lemma ZVMProtHandle_unmapped_run :
  ZVMProtHandle mem0 131072 65536 PROT_READ = (- EACCES, mem0).
Proof.
  apply (ZVMProtHandle_unmapped (AS := address_space));
    [reflexivity | reflexivity | vm_compute; reflexivity].
Defined.

Lemma ZVMProtHandle_exec_unreadable_run :
  ZVMProtHandle mem2 0 65536 PROT_EXEC = (- EACCES, mem2).
Proof.
  apply (ZVMProtHandle_exec_unreadable (AS := address_space));
    [left; reflexivity | reflexivity | reflexivity
    | vm_compute; congruence | vm_compute; congruence].
Defined.

Lemma ZVMProtHandle_other_flags_run :
  exists code,
    In code [- EINVAL; - EACCES; - EPERM]
    /\ ZVMProtHandle mem0 0 65536 (Z.lor PROT_WRITE PROT_EXEC) = (code, mem0).
Proof.
  apply (ZVMProtHandle_other_flags (AS := address_space)).
  vm_compute. intuition congruence.
Defined.

Lemma ZVMProtHandle_plain_run :
  ZVMProtHandle mem0 0 65536 PROT_READ
  = (0, MkMem [Some 1; Some 3] (words mem0)).
Proof.
  apply (ZVMProtHandle_plain (AS := address_space) mem0 0 65536 PROT_READ);
    [right; left; reflexivity | reflexivity | reflexivity
    | vm_compute; congruence].
Defined.

Lemma ZVMProtHandle_accepted_code_run :
  ZVMProtHandle mem0 65536 65536 PROT_EXEC
  = (0, MkMem [Some 3; Some 4] (words mem0)).
Proof.
  apply (ZVMProtHandle_accepted_code (AS := address_space) mem0 65536 65536
           PROT_EXEC);
    [left; reflexivity | reflexivity | reflexivity
    | vm_compute; congruence | reflexivity | vm_compute; congruence].
Defined.

Lemma ZVMProtHandle_exec_needs_validation_run :
  (NaClSegmentValidates mem0 (NaClUserToSysAddrNullOkay 65536) 65536 65536
   =? 0) = false.
Proof.
  apply Z.eqb_neq.
  apply (ZVMProtHandle_exec_needs_validation (AS := address_space) mem0
           65536 65536 PROT_EXEC);
    [left; reflexivity | vm_compute; congruence].
Defined.


Lemma TrapHandler_exit_run :
  exists nap',
    TrapHandler session1 256 = SessionEnded nap'
    /\ user_code (report nap') = 42
    /\ zvm_code (report nap') = 0
    /\ zvm_state (report nap') = Some OK_STATE
    /\ channels nap' = [fresh]
    /\ memory nap' = mem1
    /\ ztrace nap' =
       [ZTrace "untrusted code"%string; SyscallZTrace TrapExit [42]].
Proof.
  apply (TrapHandler_exit session1 256);
    [lia | reflexivity | vm_compute; congruence].
Defined.

Lemma TrapHandler_fork_run :
  match TrapHandler session1 320 with
  | Returned retcode nap' =>
      retcode = fst (Daemon (trace (ZTrace "untrusted code"%string) session1))
      /\ retcode <> 0
  | SessionEnded nap' =>
      fst (Daemon (trace (ZTrace "untrusted code"%string) session1)) = 0
      /\ user_code (report nap') = 0
      /\ exists before,
           ztrace nap' =
           before ++ [SyscallZTrace (word nap' (NaClUserToSys 320) 0) [0];
                      SyscallZTrace TrapExit [0]]
  end.
Proof. apply (TrapHandler_fork session1 320); [lia | reflexivity]. Defined.

Lemma TrapHandler_size_sign_run :
  exists nap',
    TrapHandler session1 384 = Returned (- EFAULT) nap'
    /\ channels nap' = [fresh]
    /\ memory nap' = mem1.
Proof.
  apply (TrapHandler_size_sign session1 384);
    [lia | right; reflexivity | vm_compute; congruence
    | vm_compute; congruence | vm_compute; split; congruence
    | vm_compute; congruence].
Defined.

End MoreRuns.
